(** * chainer.links.connection.lstm: the stateful LSTM link

    A shallow embedding of [chainer/links/connection/lstm.py].  The link
    keeps two nullable attributes, the cell state [c] and the previous
    output [h]; [__call__] threads them through one time step and copes
    with a mini-batch that is smaller than the one of the step before.

    The functions the link calls but does not define ([links.Linear],
    [functions.lstm], [split_axis], [concat], the sum of two variables)
    live outside this file of the library.  They are taken as an interface
    ([Collaborators]) whose operations may raise, and of which only the
    shape contracts that the specification writes down are assumed. *)

From stdpp Require Import base list option sorting.
From Stdlib Require Import ZArith Lia.

(** ** Arrays and variables *)

(** [numpy] or [cupy]: the module an array is backed by, and the value of
    [link.xp]. *)
Inductive ArrayModule := numpy | cupy.

Inductive DType := float16 | float32 | float64.

(** The [volatile] flag of a variable. *)
Inductive Flag := ON | OFF | AUTO.

(** What a collaborator raises. *)
Inductive exn := InvalidType | TypeError | ValueError | RuntimeError.

#[global] Instance ArrayModule_eq_dec : EqDecision ArrayModule.
Proof. solve_decision. Defined.
#[global] Instance DType_eq_dec : EqDecision DType.
Proof. solve_decision. Defined.
#[global] Instance Flag_eq_dec : EqDecision Flag.
Proof. solve_decision. Defined.
#[global] Instance exn_eq_dec : EqDecision exn.
Proof. solve_decision. Defined.

(** A two-dimensional array, one list per row of the batch axis (axis 0),
    with the element type and the module that backs it. *)
Record ndarray (elem : Type) := mk_ndarray {
  rows : list (list elem);
  dtype : DType;
  module : ArrayModule
}.
Arguments mk_ndarray {elem}.
Arguments rows {elem}.
Arguments dtype {elem}.
Arguments module {elem}.

(** [chainer.Variable] (the keyword is taken, hence the small letter):
    the array and the volatile flag; the computational
    graph it also records plays no part in the forward pass. *)
Record variable (elem : Type) := mk_variable {
  data : ndarray elem;
  volatile : Flag
}.
Arguments mk_variable {elem}.
Arguments data {elem}.
Arguments volatile {elem}.

(** [len(v.data)] *)
Definition len {elem} (v : variable elem) : nat := length (rows (data v)).

(** [xp.zeros((n, m), dtype=dt)] *)
Definition zeros {elem} (zero : elem) (xp : ArrayModule) (n m : nat) (dt : DType)
  : ndarray elem :=
  {| rows := replicate n (replicate m zero); dtype := dt; module := xp |}.

(** [Variable.to_cpu] and [Variable.to_gpu] swap the array for a copy
    backed by the other module. *)
Definition var_to_cpu {elem} (v : variable elem) : variable elem :=
  {| data := {| rows := rows (data v); dtype := dtype (data v); module := numpy |};
     volatile := volatile v |}.

Definition var_to_gpu {elem} (v : variable elem) : variable elem :=
  {| data := {| rows := rows (data v); dtype := dtype (data v); module := cupy |};
     volatile := volatile v |}.

(** An array of shape [(n, m)]. *)
Definition has_shape {elem} (a : ndarray elem) (n m : nat) : Prop :=
  length (rows a) = n ∧ Forall (λ r, length r = m) (rows a).

(** ** Results and the collaborators *)

Definition result (A : Type) : Type := exn + A.

Definition rbind {A B} (r : result A) (k : A → result B) : result B :=
  match r with
  | inl e => inl e
  | inr a => k a
  end.

Declare Scope result_scope.
Delimit Scope result_scope with res.
Notation "'try' x := r 'in' k" := (rbind r (λ x, k))
  (at level 10, x pattern, r at level 100, k at level 200) : result_scope.

(** The functions [__call__] relies on.  [upward] and [lateral] are the
    two child links with their weights; they follow the chain to the
    device it is moved to, hence the module argument.  [add] is the sum of
    two variables behind [+=]. *)
Class Collaborators (elem : Type) := {
  (** the zero of the element type, with which [xp.zeros] fills *)
  zero : elem;
  upward : ArrayModule → variable elem → result (variable elem);
  lateral : ArrayModule → variable elem → result (variable elem);
  add : variable elem → variable elem → result (variable elem);
  lstm : variable elem → variable elem → result (variable elem * variable elem);
  split_axis : variable elem → nat → result (variable elem * variable elem);
  concat : variable elem → variable elem → result (variable elem);

  (** Modelled from the spec: the affine projection, absent from this
      file, maps a tensor [(B, In)] to a tensor [(B, Out)]. *)
  upward_len : ∀ m x u, upward m x = inr u → len u = len x;
  (** Modelled from the spec: the sum of the lateral term into the gate
      pre-activation, absent from this file, keeps the pre-activation's
      batch. *)
  add_len : ∀ a b g, add a b = inr g → len g = len a;
  (** Modelled from the spec: the gate primitive, absent from this file,
      yields a new output of shape [(batch, out_size)], [batch] being the
      batch of the pre-activation. *)
  lstm_out_len : ∀ cv g cn hn, lstm cv g = inr (cn, hn) → len hn = len g;
  (** Modelled from the spec: the gate primitive, absent from this file,
      combines the pre-activation with the first [batch] rows of the cell
      state it is given (shrinking-batch correctness). *)
  lstm_head : ∀ cv g chd ctl cn hn,
    split_axis cv (len g) = inr (chd, ctl) →
    lstm cv g = inr (cn, hn) →
    ∃ cn', lstm chd g = inr (cn', hn);
  (** Modelled from the spec: splitting along the batch axis, absent from
      this file, gives the first [i] rows and the remaining rows. *)
  split_axis_rows : ∀ v i a b, split_axis v i = inr (a, b) →
    rows (data a) = take i (rows (data v)) ∧
    rows (data b) = drop i (rows (data v));
  (** Modelled from the spec: concatenation along the batch axis, absent
      from this file, puts the rows of its arguments one after the other,
      in that order. *)
  concat_rows : ∀ a b r, concat a b = inr r →
    rows (data r) = rows (data a) ++ rows (data b)
}.

(** ** The link *)

(** [state_size], the module [xp] the chain is on, and the two states. *)
Record LSTM (elem : Type) := mk_LSTM {
  state_size : nat;
  xp : ArrayModule;
  c : option (variable elem);
  h : option (variable elem)
}.
Arguments mk_LSTM {elem}.
Arguments state_size {elem}.
Arguments xp {elem}.
Arguments c {elem}.
Arguments h {elem}.

(** A method of the link: it may assign attributes and may raise; what it
    assigned before it raised stays assigned. *)
Definition M (elem A : Type) : Type := LSTM elem → LSTM elem * result A.

Definition ret {elem A} (a : A) : M elem A := λ s, (s, inr a).

Definition bind {elem A B} (m : M elem A) (k : A → M elem B) : M elem B :=
  λ s, match m s with
       | (s', inr a) => k a s'
       | (s', inl e) => (s', inl e)
       end.

(** The call of a collaborator. *)
Definition lift {elem A} (r : result A) : M elem A := λ s, (s, r).

(** [self] *)
Definition self {elem} : M elem (LSTM elem) := λ s, (s, inr s).

(** [self.c = v] and [self.h = v] *)
Definition set_c {elem} (v : option (variable elem)) : M elem unit :=
  λ s, ({| state_size := state_size s; xp := xp s; c := v; h := h s |}, inr tt).

Definition set_h {elem} (v : option (variable elem)) : M elem unit :=
  λ s, ({| state_size := state_size s; xp := xp s; c := c s; h := v |}, inr tt).

Declare Scope method_scope.
Delimit Scope method_scope with method.
Notation "'do' x <- m ; k" := (bind m (λ x, k))
  (at level 10, x pattern, m at level 100, k at level 200) : method_scope.
Notation "m ;; k" := (bind m (λ _, k))
  (at level 100, k at level 200, right associativity) : method_scope.

Section Link.
Context {elem : Type} `{Collaborators elem}.

Local Open Scope method_scope.

(** [reset_state]: [self.c = self.h = None] *)
Definition reset_state (s : LSTM elem) : LSTM elem :=
  {| state_size := state_size s; xp := xp s; c := None; h := None |}.

(** [__init__]: the two projections are the collaborators; the states do
    not exist before [reset_state] assigns them. *)
Definition __init__ (in_size out_size : nat) : LSTM elem :=
  reset_state {| state_size := out_size; xp := numpy; c := None; h := None |}.

(** [to_cpu] and [to_gpu]: the chain and its child links change module,
    and so do the states that are set.  Which of several GPUs is meant is
    not kept. *)
Definition to_cpu (s : LSTM elem) : LSTM elem :=
  {| state_size := state_size s; xp := numpy;
     c := var_to_cpu <$> c s; h := var_to_cpu <$> h s |}.

Definition to_gpu (s : LSTM elem) : LSTM elem :=
  {| state_size := state_size s; xp := cupy;
     c := var_to_gpu <$> c s; h := var_to_gpu <$> h s |}.

(** The zero cell state of [__call__]:
    [Variable(xp.zeros((len(x.data), self.state_size), dtype=x.data.dtype),
    volatile='auto')] with [xp = self.xp]. *)
Definition zero_cell (s : LSTM elem) (x : variable elem) : variable elem :=
  {| data := zeros zero (xp s) (len x) (state_size s) (dtype (data x));
     volatile := AUTO |}.

(** [__call__] *)
Definition __call__ (x : variable elem) : M elem (variable elem) :=
  let batch := len x in
  do this <- self;
  do lstm_in <- lift (upward (xp this) x);
  do (lstm_in, h_rest) <-
    match h this with
    | Some hv =>
        if decide (batch < len hv) then
          do (h_update, h_rest) <- lift (split_axis hv batch);
          do l <- lift (lateral (xp this) h_update);
          do lstm_in <- lift (add lstm_in l);
          ret (lstm_in, Some h_rest)
        else
          do l <- lift (lateral (xp this) hv);
          do lstm_in <- lift (add lstm_in l);
          ret (lstm_in, None)
    | None => ret (lstm_in, None)
    end;
  do cv <-
    match c this with
    | None => set_c (Some (zero_cell this x)) ;; ret (zero_cell this x)
    | Some cv => ret cv
    end;
  do (cn, hn) <- lift (lstm cv lstm_in);
  set_c (Some cn) ;;
  do hn <-
    match h_rest with
    | Some r => lift (concat hn r)
    | None => ret hn
    end;
  set_h (Some hn) ;;
  ret hn.

(** ** The step seen from outside *)

Local Open Scope result_scope.

(** What lines 72 to 80 compute, as a function of the state they read: the
    gate pre-activation [lstm_in] and the rows of [h] that were set
    aside, [h_rest]. *)
Definition gate_input (s : LSTM elem) (x : variable elem)
  : result (variable elem * option (variable elem)) :=
  try u := upward (xp s) x in
  match h s with
  | Some hv =>
      if decide (len x < len hv) then
        try (h_update, h_rest) := split_axis hv (len x) in
        try l := lateral (xp s) h_update in
        try g := add u l in
        inr (g, Some h_rest)
      else
        try l := lateral (xp s) hv in
        try g := add u l in
        inr (g, None)
  | None => inr (u, None)
  end.

(** The cell state the gate primitive is given (lines 81 to 86). *)
Definition gate_cell (s : LSTM elem) (x : variable elem) : variable elem :=
  match c s with
  | Some cv => cv
  | None => zero_cell s x
  end.

(** The new output [h] of line 86, before the rows set aside are put
    back. *)
Definition new_output (s : LSTM elem) (x : variable elem) : result (variable elem) :=
  try (g, _) := gate_input s x in
  try (_, hn) := lstm (gate_cell s x) g in
  inr hn.

(** The link once line 85 is passed, and once line 89 is. *)
Definition with_cell (s : LSTM elem) (x : variable elem) : LSTM elem :=
  {| state_size := state_size s; xp := xp s;
     c := Some (gate_cell s x); h := h s |}.

Definition commit (s : LSTM elem) (cn hn : variable elem) : LSTM elem :=
  {| state_size := state_size s; xp := xp s; c := Some cn; h := Some hn |}.

(** The two states of the specification's state machine. *)
Definition Unset (s : LSTM elem) : Prop := c s = None ∧ h s = None.
Definition Set_ (s : LSTM elem) : Prop := is_Some (c s) ∧ is_Some (h s).

(** The rows of [h], none when [h] is [None]. *)
Definition h_rows (s : LSTM elem) : list (list elem) :=
  match h s with
  | Some hv => rows (data hv)
  | None => []
  end.

(** A sequence of calls that all return. *)
Fixpoint steps (s : LSTM elem) (xs : list (variable elem)) : option (LSTM elem) :=
  match xs with
  | [] => Some s
  | x :: xs' =>
      match __call__ x s with
      | (s', inr _) => steps s' xs'
      | (_, inl _) => None
      end
  end.

(** What a caller sees of a sequence of calls: the output, or the
    exception, of each. *)
Fixpoint outputs (s : LSTM elem) (xs : list (variable elem))
  : list (result (variable elem)) :=
  match xs with
  | [] => []
  | x :: xs' => let (s', r) := __call__ x s in r :: outputs s' xs'
  end.

(** The links a program can hold: built by [__init__], then reset, moved
    and called in any order, whether the calls return or raise. *)
Inductive reachable : LSTM elem → Prop :=
  | reach_init i o : reachable (__init__ i o)
  | reach_reset s : reachable s → reachable (reset_state s)
  | reach_to_cpu s : reachable s → reachable (to_cpu s)
  | reach_to_gpu s : reachable s → reachable (to_gpu s)
  | reach_call s x s' r : reachable s → __call__ x s = (s', r) → reachable s'.

(** The same, the calls that raise left out. *)
Inductive reachable_ret : LSTM elem → Prop :=
  | ret_init i o : reachable_ret (__init__ i o)
  | ret_reset s : reachable_ret s → reachable_ret (reset_state s)
  | ret_to_cpu s : reachable_ret s → reachable_ret (to_cpu s)
  | ret_to_gpu s : reachable_ret s → reachable_ret (to_gpu s)
  | ret_call s x s' out :
      reachable_ret s → __call__ x s = (s', inr out) → reachable_ret s'.

End Link.

(** ** Collaborators to run the link on

    Integers stand for the floats, and the activations are left out: the
    arithmetic is not the point, the shapes and the failures are.  The
    collaborators check what the library's check: a projection refuses an
    input that is not [float32], that is not on the module of its
    weights, or whose rows have not the number of features it was built
    for; the sum wants two variables of one shape, type and module; the
    gate primitive wants [float32] on one module, a pre-activation four
    times as wide as the cell state and no more rows in it than in the
    cell state, of which it updates the first rows and hands the others
    back as they are
    ([functions.lstm(c1_expect, ...)] in the test of the link, four rows
    against three); a split wants its point inside the array. *)
Module Toy.

Definition row_sum (r : list Z) : Z := foldr Z.add 0%Z r.

Definition with_rows (v : variable Z) (rs : list (list Z)) : variable Z :=
  {| data := {| rows := rs; dtype := dtype (data v); module := module (data v) |};
     volatile := volatile v |}.

Definition with_flag (v : variable Z) (f : Flag) : variable Z :=
  {| data := data v; volatile := f |}.

(** The flag of what a function makes of two variables: ['auto'] gives
    way, [ON] and [OFF] do not mix. *)
Definition flag_join (a b : Flag) : option Flag :=
  match a, b with
  | AUTO, f | f, AUTO => Some f
  | ON, ON => Some ON
  | OFF, OFF => Some OFF
  | ON, OFF | OFF, ON => None
  end.

(** A projection to [n] features with all weights [w]. *)
Definition project (w : Z) (n : nat) (v : variable Z) : variable Z :=
  with_rows v ((λ r, replicate n (w * row_sum r)%Z) <$> rows (data v)).

(** The projection as a link of [n_in] input features whose weights are
    on module [m]. *)
Definition linear (w : Z) (n_in n_out : nat) (m : ArrayModule) (x : variable Z)
  : result (variable Z) :=
  if decide (dtype (data x) = float32 ∧ module (data x) = m ∧
             Forall (λ r, length r = n_in) (rows (data x)))
  then inr (project w n_out x)
  else inl InvalidType.

Definition vadd (a b : variable Z) : result (variable Z) :=
  if decide (length <$> rows (data a) = length <$> rows (data b) ∧
             dtype (data a) = dtype (data b) ∧
             module (data a) = module (data b))
  then inr (with_rows a (zip_with (zip_with Z.add) (rows (data a)) (rows (data b))))
  else inl InvalidType.

(** One row of the gate: input, forget, output and candidate chunks. *)
Definition gate_row (crow grow : list Z) : list Z * list Z :=
  let n := length crow in
  let i := take n grow in
  let f := take n (drop n grow) in
  let o := take n (drop (2 * n) grow) in
  let a := take n (drop (3 * n) grow) in
  let cn := zip_with Z.add (zip_with Z.mul f crow) (zip_with Z.mul i a) in
  (cn, zip_with Z.mul o cn).

(** What the gate primitive checks of its two arguments. *)
Definition gate_ok (cv g : variable Z) : Prop :=
  dtype (data cv) = float32 ∧ dtype (data g) = float32 ∧
  module (data cv) = module (data g) ∧
  len g ≤ len cv ∧
  Forall2 (λ crow grow, length grow = 4 * length crow)
          (take (len g) (rows (data cv))) (rows (data g)).

#[local] Instance gate_ok_dec cv g : Decision (gate_ok cv g).
Proof. unfold gate_ok. apply _. Defined.

Definition gate (cv g : variable Z) : result (variable Z * variable Z) :=
  match flag_join (volatile cv) (volatile g) with
  | None => inl ValueError
  | Some f =>
      if decide (gate_ok cv g)
      then
        let new := zip_with gate_row (take (len g) (rows (data cv))) (rows (data g)) in
        inr (with_flag (with_rows cv ((fst <$> new) ++ drop (len g) (rows (data cv)))) f,
             with_flag (with_rows g (snd <$> new)) f)
      else inl InvalidType
  end.

Definition split (v : variable Z) (i : nat) : result (variable Z * variable Z) :=
  if decide (0 < i ∧ i < len v)
  then inr (with_rows v (take i (rows (data v))), with_rows v (drop i (rows (data v))))
  else inl ValueError.

Definition cat (a b : variable Z) : result (variable Z) :=
  inr (with_rows a (rows (data a) ++ rows (data b))).

Lemma project_len w n v : len (project w n v) = len v.
Proof. unfold len, project; simpl. by rewrite length_fmap. Qed.

Lemma linear_len w n_in n_out m x u :
  linear w n_in n_out m x = inr u → len u = len x.
Proof.
  unfold linear; case_decide; [|done]. intros [= <-]. apply project_len.
Qed.

Lemma vadd_len a b g : vadd a b = inr g → len g = len a.
Proof.
  unfold vadd; case_decide as Hl; [|done]. intros [= <-].
  destruct Hl as (Hl & _ & _).
  apply (f_equal length) in Hl. rewrite !length_fmap in Hl.
  unfold len in *; simpl. rewrite length_zip_with. lia.
Qed.

Lemma gate_out_len cv g cn hn : gate cv g = inr (cn, hn) → len hn = len g.
Proof.
  unfold gate. destruct (flag_join _ _) as [f|]; [|done].
  case_decide as Hl; [|done]. intros [= <- <-].
  destruct Hl as (_ & _ & _ & Hl & _). unfold len in *; simpl.
  rewrite length_fmap, length_zip_with, length_take. lia.
Qed.

Lemma gate_head cv g chd ctl cn hn :
  split cv (len g) = inr (chd, ctl) →
  gate cv g = inr (cn, hn) →
  ∃ cn', gate chd g = inr (cn', hn).
Proof.
  unfold split, gate.
  case_decide as Hi; [|done]. intros [= <- <-]. simpl.
  destruct (flag_join _ _) as [f|]; [|done].
  case_decide as Hl; [|done]. intros [= <- <-].
  destruct Hl as (Hc & Hg & Hm & Hl & Hw).
  rewrite decide_True.
  - simpl. rewrite take_idemp. eauto.
  - unfold gate_ok, len in *; simpl. rewrite length_take, take_idemp.
    split_and!; [done|done|done|lia|done].
Qed.

Lemma split_rows v i a b :
  split v i = inr (a, b) →
  rows (data a) = take i (rows (data v)) ∧ rows (data b) = drop i (rows (data v)).
Proof. unfold split; case_decide; [|done]. by intros [= <- <-]. Qed.

Lemma cat_rows a b r :
  cat a b = inr r → rows (data r) = rows (data a) ++ rows (data b).
Proof. by intros [= <-]. Qed.

(** The collaborators of a link built with [n_in] input and [n_out]
    output features: upward weights all [1], lateral weights all [2]. *)
#[local] Instance collaborators (n_in n_out : nat) : Collaborators Z := {|
  zero := 0%Z;
  upward := linear 1 n_in (4 * n_out);
  lateral := linear 2 n_out (4 * n_out);
  add := vadd;
  lstm := gate;
  split_axis := split;
  concat := cat;
  upward_len := linear_len 1 n_in (4 * n_out);
  add_len := vadd_len;
  lstm_out_len := gate_out_len;
  lstm_head := gate_head;
  split_axis_rows := split_rows;
  concat_rows := cat_rows
|}.

(** A variable that is not volatile, as a caller makes them. *)
Definition var (m : ArrayModule) (dt : DType) (rs : list (list Z)) : variable Z :=
  {| data := {| rows := rs; dtype := dt; module := m |}; volatile := OFF |}.

End Toy.

(** ** How a call ends *)

Section Call.
Context {elem : Type} `{Collaborators elem}.

(** The link, given back field by field, is the link. *)
Lemma LSTM_eta (s : LSTM elem) :
  {| state_size := state_size s; xp := xp s; c := c s; h := h s |} = s.
Proof. by destruct s. Qed.

(** A call in four stages: the pre-activation, the gate primitive, the
    rows put back, and the assignments each stage has made when it
    raises. *)
Lemma call_unfold (s : LSTM elem) (x : variable elem) :
  __call__ x s =
  match gate_input s x with
  | inl e => (s, inl e)
  | inr (g, rest) =>
      match lstm (gate_cell s x) g with
      | inl e => (with_cell s x, inl e)
      | inr (cn, hn) =>
          match rest with
          | None => (commit s cn hn, inr hn)
          | Some r =>
              match concat hn r with
              | inl e =>
                  ({| state_size := state_size s; xp := xp s;
                      c := Some cn; h := h s |}, inl e)
              | inr out => (commit s cn out, inr out)
              end
          end
      end
  end.
Proof.
  destruct s as [n m oc oh].
  unfold __call__, gate_input, gate_cell, with_cell, commit, bind, lift, self,
    ret, set_c, set_h, rbind; simpl.
  repeat (case_match; simplify_eq/=; try done).
Qed.

(** A call that returns went through every stage, and committed. *)
Lemma call_returns (s s' : LSTM elem) (x out : variable elem) :
  __call__ x s = (s', inr out) ↔
  ∃ g rest cn hn,
    gate_input s x = inr (g, rest) ∧
    lstm (gate_cell s x) g = inr (cn, hn) ∧
    match rest with
    | None => out = hn
    | Some r => concat hn r = inr out
    end ∧
    s' = commit s cn out.
Proof.
  rewrite call_unfold. split.
  - intros Hc. repeat case_match; simplify_eq; eauto 10.
  - intros (g & rest & cn & hn & -> & -> & Hr & ->).
    destruct rest; [by rewrite Hr|by subst].
Qed.

(** A call that raises has not touched [h], and has touched [c] only if
    the gate primitive was reached. *)
Lemma call_raises (s s' : LSTM elem) (x : variable elem) (e : exn) :
  __call__ x s = (s', inl e) ↔
  (gate_input s x = inl e ∧ s' = s) ∨
  (∃ g rest, gate_input s x = inr (g, rest) ∧
     lstm (gate_cell s x) g = inl e ∧ s' = with_cell s x) ∨
  (∃ g r cn hn, gate_input s x = inr (g, Some r) ∧
     lstm (gate_cell s x) g = inr (cn, hn) ∧ concat hn r = inl e ∧
     s' = {| state_size := state_size s; xp := xp s; c := Some cn; h := h s |}).
Proof.
  rewrite call_unfold. split.
  - intros Hc. repeat case_match; simplify_eq; eauto 12.
  - intros [[-> ->]|[(g & rest & -> & -> & ->)|(g & r & cn & hn & -> & -> & -> & ->)]];
      done.
Qed.

(** With a cell state in place, line 83 assigns nothing. *)
Lemma with_cell_id (s : LSTM elem) (x : variable elem) :
  is_Some (c s) → with_cell s x = s.
Proof. destruct s as [n m [cv|] oh]; intros [? ?]; by simplify_eq/=. Qed.

(** The pre-activation has the batch of the input. *)
Lemma gate_input_len (s : LSTM elem) (x g : variable elem) rest :
  gate_input s x = inr (g, rest) → len g = len x.
Proof.
  unfold gate_input, rbind. intros Hg.
  repeat case_match; simplify_eq;
    repeat match goal with
    | E : add _ _ = inr _ |- _ => apply add_len in E
    | E : upward _ _ = inr _ |- _ => apply upward_len in E
    end; congruence.
Qed.

(** The three branches of lines 75 to 80. *)
Lemma gate_input_None (s : LSTM elem) (x : variable elem) :
  h s = None →
  gate_input s x =
  match upward (xp s) x with
  | inl e => inl e
  | inr u => inr (u, None)
  end.
Proof. unfold gate_input, rbind. by intros ->. Qed.

Lemma gate_input_whole (s : LSTM elem) (x hv : variable elem) :
  h s = Some hv → len hv ≤ len x →
  gate_input s x =
  match upward (xp s) x with
  | inl e => inl e
  | inr u =>
      match lateral (xp s) hv with
      | inl e => inl e
      | inr l =>
          match add u l with
          | inl e => inl e
          | inr g => inr (g, None)
          end
      end
  end.
Proof.
  unfold gate_input, rbind. intros -> Hl.
  case_decide; [lia|done].
Qed.

Lemma gate_input_split (s : LSTM elem) (x hv : variable elem) :
  h s = Some hv → len x < len hv →
  gate_input s x =
  match upward (xp s) x with
  | inl e => inl e
  | inr u =>
      match split_axis hv (len x) with
      | inl e => inl e
      | inr (h_update, h_rest) =>
          match lateral (xp s) h_update with
          | inl e => inl e
          | inr l =>
              match add u l with
              | inl e => inl e
              | inr g => inr (g, Some h_rest)
              end
          end
      end
  end.
Proof.
  unfold gate_input, rbind. intros -> Hl.
  case_decide; [|lia]. repeat case_match; simplify_eq; done.
Qed.

End Call.

(** ** The three batch cases of a call *)

Section Step.
Context {elem : Type} `{Collaborators elem}.

(** Lines 79 and 80: when [h] has no more rows than the input, [lateral]
    is given all of [h], and the call returns exactly when the
    collaborators do. *)
Lemma whole_branch_returns (s s' : LSTM elem) (x hv cv out : variable elem) :
  h s = Some hv → c s = Some cv → len hv ≤ len x →
  __call__ x s = (s', inr out) ↔
  ∃ u l g cn,
    upward (xp s) x = inr u ∧
    lateral (xp s) hv = inr l ∧
    add u l = inr g ∧
    lstm cv g = inr (cn, out) ∧
    s' = commit s cn out.
Proof.
  intros Hh Hc Hlen. rewrite call_returns.
  rewrite (gate_input_whole _ _ _ Hh) by lia.
  unfold gate_cell. rewrite Hc. split.
  - intros (g & rest & cn & hn & Hg & Hl & Hr & ->).
    repeat case_match; simplify_eq. do 4 eexists. split_and!; done.
  - intros (u & l & g & cn & -> & -> & -> & Hl & ->).
    exists g, None, cn, out. done.
Qed.

(** Lines 77 and 78: when [h] has more rows than the input, the rows
    beyond are set aside and put back behind the new output. *)
Lemma split_branch_returns (s s' : LSTM elem) (x hv cv out : variable elem) :
  h s = Some hv → c s = Some cv → len x < len hv →
  __call__ x s = (s', inr out) ↔
  ∃ u h_update h_rest l g cn hn,
    upward (xp s) x = inr u ∧
    split_axis hv (len x) = inr (h_update, h_rest) ∧
    lateral (xp s) h_update = inr l ∧
    add u l = inr g ∧
    lstm cv g = inr (cn, hn) ∧
    concat hn h_rest = inr out ∧
    s' = commit s cn out.
Proof.
  intros Hh Hc Hlt. rewrite call_returns.
  rewrite (gate_input_split _ _ _ Hh Hlt).
  unfold gate_cell. rewrite Hc. split.
  - intros (g & rest & cn & hn & Hg & Hl & Hr & ->).
    repeat case_match; simplify_eq. do 7 eexists. split_and!; done.
  - intros (u & hd & tl & l & g & cn & hn & -> & -> & -> & -> & Hl & Hr & ->).
    exists g, (Some tl), cn, hn. done.
Qed.

(** C1. A call on a link whose [h] has more rows than the input batch [b]
    returns the new output of the gate primitive followed by the rows of
    the previous [h] from [b] on, in that order: its first [b] rows are
    the new output, computed from the cell state (of which the primitive
    uses the first [b] rows) and from [upward(x)] plus [lateral] of the
    first [b] rows of [h]; its other rows are those of the previous [h],
    so that it has again as many rows as [h] had. *)
Theorem shrinking_batch_output (s s' : LSTM elem) (x hv cv out : variable elem) :
  h s = Some hv → c s = Some cv → len x < len hv →
  __call__ x s = (s', inr out) →
  ∃ u h_update h_rest l g cn hn,
    split_axis hv (len x) = inr (h_update, h_rest) ∧
    rows (data h_update) = take (len x) (rows (data hv)) ∧
    upward (xp s) x = inr u ∧
    lateral (xp s) h_update = inr l ∧
    add u l = inr g ∧
    lstm cv g = inr (cn, hn) ∧
    (∀ chd ctl, split_axis cv (len x) = inr (chd, ctl) →
       rows (data chd) = take (len x) (rows (data cv)) ∧
       ∃ cn', lstm chd g = inr (cn', hn)) ∧
    concat hn h_rest = inr out ∧
    rows (data out) = rows (data hn) ++ drop (len x) (rows (data hv)) ∧
    take (len x) (rows (data out)) = rows (data hn) ∧
    drop (len x) (rows (data out)) = drop (len x) (rows (data hv)) ∧
    len out = len hv ∧
    h s' = Some out.
Proof.
  intros Hh Hc Hlt Hcall.
  apply (split_branch_returns _ _ _ _ _ _ Hh Hc Hlt) in Hcall
    as (u & h_update & h_rest & l & g & cn & hn & Hu & Hs & Hla & Ha & Hl & Hr & ->).
  destruct (split_axis_rows _ _ _ _ Hs) as [Hhd Htl].
  pose proof (concat_rows _ _ _ Hr) as Hout. rewrite Htl in Hout.
  assert (len g = len x) as Hgl
    by (rewrite (add_len _ _ _ Ha); apply (upward_len _ _ _ Hu)).
  pose proof (lstm_out_len _ _ _ _ Hl) as Hhn.
  assert (length (rows (data hn)) = len x) as Hn by (unfold len in *; lia).
  exists u, h_update, h_rest, l, g, cn, hn.
  split_and!; try done.
  - intros chd ctl Hcs. split; [by apply (split_axis_rows _ _ _ _ Hcs)|].
    rewrite <- Hgl in Hcs. by eapply lstm_head.
  - rewrite Hout. by rewrite take_app_length'.
  - rewrite Hout. by rewrite drop_app_length'.
  - unfold len in *. rewrite Hout, length_app, length_drop. lia.
Qed.

(** C2. A call on a link whose [h] has as many rows as the input batch
    returns exactly when the projections, the sum and the gate primitive
    do; what it returns is the new output of the gate primitive applied
    to the stored cell state and to [upward(x) + lateral(h)], and it
    leaves the new cell state in [c] and the new output in [h]. *)
Theorem equal_batch_step (s s' : LSTM elem) (x hv cv out : variable elem) :
  h s = Some hv → c s = Some cv → len hv = len x →
  __call__ x s = (s', inr out) ↔
  ∃ u l g cn,
    upward (xp s) x = inr u ∧
    lateral (xp s) hv = inr l ∧
    add u l = inr g ∧
    lstm cv g = inr (cn, out) ∧
    s' = commit s cn out ∧ c s' = Some cn ∧ h s' = Some out.
Proof.
  intros Hh Hc Hlen. rewrite (whole_branch_returns _ _ _ _ _ _ Hh Hc) by lia.
  split.
  - intros (u & l & g & cn & ? & ? & ? & ? & ->). do 4 eexists. split_and!; done.
  - intros (u & l & g & cn & ? & ? & ? & ? & ? & _). do 4 eexists. split_and!; done.
Qed.

(** C3. The first call on a link that was just built or just reset
    returns exactly when [upward] and the gate primitive do; what it
    returns is the new output of the gate primitive applied to a cell
    state of [len x] rows of [state_size] zeros and to [upward(x)], to
    which nothing is added. *)
Theorem first_step_no_lateral (s s' : LSTM elem) (x out : variable elem) :
  Unset s →
  (__call__ x s = (s', inr out) ↔
   ∃ u cn,
     upward (xp s) x = inr u ∧
     lstm (zero_cell s x) u = inr (cn, out) ∧
     s' = commit s cn out) ∧
  rows (data (zero_cell s x)) = replicate (len x) (replicate (state_size s) zero) ∧
  has_shape (data (zero_cell s x)) (len x) (state_size s).
Proof.
  intros [Hc Hh]. split_and!.
  - rewrite call_returns, (gate_input_None _ _ Hh).
    unfold gate_cell. rewrite Hc. split.
    + intros (g & rest & cn & hn & Hg & Hl & Hr & ->).
      repeat case_match; simplify_eq. eauto.
    + intros (u & cn & -> & Hl & ->). exists u, None, cn, out. done.
  - done.
  - split; simpl.
    + by rewrite length_replicate.
    + apply Forall_replicate. by rewrite length_replicate.
Qed.

End Step.

(** ** Calls that raise *)

Section Raise.
Context {elem : Type} `{Collaborators elem}.


(** What a call that raises leaves behind, whatever the collaborators
    are.  It never changes [h].  It
    leaves [c] alone when a projection, the split or the sum raises, and
    when the gate primitive raises on a cell state that was there.  When
    the gate primitive raises and [c] was [None], [c] is left holding the
    zero cell state of line 83; when the concatenation of line 88 raises,
    [c] holds the new cell state already. *)
Theorem raising_step_state (s s' : LSTM elem) (x : variable elem) (e : exn) :
  __call__ x s = (s', inl e) →
  h s' = h s ∧ state_size s' = state_size s ∧ xp s' = xp s ∧
  ((gate_input s x = inl e ∧ s' = s) ∨
   (∃ g rest, gate_input s x = inr (g, rest) ∧
      lstm (gate_cell s x) g = inl e ∧
      (is_Some (c s) → s' = s) ∧
      (c s = None → c s' = Some (zero_cell s x))) ∨
   (∃ g h_rest cn hn, gate_input s x = inr (g, Some h_rest) ∧
      lstm (gate_cell s x) g = inr (cn, hn) ∧
      concat hn h_rest = inl e ∧
      c s' = Some cn)).
Proof.
  intros [[Hg ->]|[(g & rest & Hg & Hl & ->)|(g & r & cn & hn & Hg & Hl & Hr & ->)]]%call_raises.
  - split_and!; try done. by left.
  - split_and!; try done. right; left. exists g, rest. split_and!; try done.
    + apply with_cell_id.
    + intros Hc. unfold with_cell, gate_cell. simpl. by rewrite Hc.
  - split_and!; try done. right; right. by exists g, r, cn, hn.
Qed.

(** C10. When [h] has fewer rows than the input, the call checks nothing
    itself: it gives all of [h] to [lateral] and adds the result to the
    pre-activation, which has the rows of the input, just as when the
    batches are equal; it returns exactly when the collaborators do.  If
    one of them raises, so does the call, with the link as it was. *)
Theorem growing_batch_unchecked (s : LSTM elem) (x hv cv : variable elem) :
  h s = Some hv → c s = Some cv → len hv < len x →
  (∀ s' out,
     __call__ x s = (s', inr out) ↔
     ∃ u l g cn,
       upward (xp s) x = inr u ∧ lateral (xp s) hv = inr l ∧
       add u l = inr g ∧ lstm cv g = inr (cn, out) ∧ s' = commit s cn out) ∧
  (∀ u, upward (xp s) x = inr u → len u = len x) ∧
  (∀ s' e,
     __call__ x s = (s', inl e) →
     s' = s ∧
     (upward (xp s) x = inl e ∨
      ∃ u, upward (xp s) x = inr u ∧
        (lateral (xp s) hv = inl e ∨
         ∃ l, lateral (xp s) hv = inr l ∧
           (add u l = inl e ∨
            ∃ g, add u l = inr g ∧ lstm cv g = inl e)))).
Proof.
  intros Hh Hc Hlen. split_and!.
  - intros s' out. apply whole_branch_returns; [done|done|lia].
  - intros u. apply upward_len.
  - intros s' e Hcase%call_raises.
    rewrite (gate_input_whole _ _ _ Hh) in Hcase by lia.
    unfold gate_cell in Hcase. rewrite Hc in Hcase.
    destruct Hcase as [[Hg ->]|[(g & rest & Hg & Hl & ->)|(g & r & cn & hn & Hg & _)]].
    + split; [done|]. repeat case_match; simplify_eq; eauto 10.
    + split; [apply with_cell_id; rewrite Hc; eauto|].
      repeat case_match; simplify_eq; eauto 10.
    + repeat case_match; simplify_eq.
Qed.

End Raise.

(** ** The zero cell state *)

Section ZeroCell.
Context {elem : Type} `{Collaborators elem}.




End ZeroCell.

(** ** The states of the link *)

Section States.
Context {elem : Type} `{Collaborators elem}.

(** Both states [None], or neither. *)
Definition coupled (s : LSTM elem) : Prop := Unset s ∨ Set_ s.

Lemma reset_state_Unset (s : LSTM elem) : Unset (reset_state s).
Proof. done. Qed.

Lemma init_Unset (i o : nat) : Unset (__init__ (elem := elem) i o).
Proof. done. Qed.

(** [state_size] is the [out_size] the link was built with, whatever is
    done to the link afterwards. *)
Lemma init_state_size (i o : nat) : state_size (__init__ (elem := elem) i o) = o.
Proof. done. Qed.

Lemma to_cpu_coupled (s : LSTM elem) : coupled s → coupled (to_cpu s).
Proof.
  intros [[Hc Hh]|[[cv Hc] [hv Hh]]]; [left|right];
    unfold Unset, Set_; simpl; rewrite Hc, Hh; simpl; eauto.
Qed.

Lemma to_gpu_coupled (s : LSTM elem) : coupled s → coupled (to_gpu s).
Proof.
  intros [[Hc Hh]|[[cv Hc] [hv Hh]]]; [left|right];
    unfold Unset, Set_; simpl; rewrite Hc, Hh; simpl; eauto.
Qed.

Lemma call_returns_Set (s s' : LSTM elem) (x out : variable elem) :
  __call__ x s = (s', inr out) → Set_ s'.
Proof.
  intros (g & rest & cn & hn & _ & _ & _ & ->)%call_returns.
  split; simpl; eauto.
Qed.

(** Whatever the collaborators are, [__init__] and [reset_state] give a link
    with both states [None]; [reset_state] changes nothing on such a
    link; a call that returns leaves both states set.  Through
    construction, resets, moves between devices and calls that return,
    the link has both states [None] or both set.  When calls that raise
    are let in, a set [h] still comes with a set [c], a set [c] no longer
    with a set [h]. *)
Theorem state_machine :
  (∀ i o, Unset (__init__ (elem := elem) i o)) ∧
  (∀ s : LSTM elem, Unset (reset_state s)) ∧
  (∀ s : LSTM elem, Unset s → reset_state s = s) ∧
  (∀ (s s' : LSTM elem) x out, __call__ x s = (s', inr out) → Set_ s') ∧
  (∀ s : LSTM elem, reachable_ret s → coupled s) ∧
  (∀ s : LSTM elem, reachable s → is_Some (h s) → is_Some (c s)).
Proof.
  split_and!.
  - apply init_Unset.
  - apply reset_state_Unset.
  - intros [n m oc oh] [Hc Hh]. simpl in *. by subst.
  - apply call_returns_Set.
  - induction 1 as [i o|s _ _|s _ IH|s _ IH|s x s' out _ _ Hcall].
    + left. apply init_Unset.
    + left. apply reset_state_Unset.
    + by apply to_cpu_coupled.
    + by apply to_gpu_coupled.
    + right. by eapply call_returns_Set.
  - induction 1 as [i o|s _ _|s _ IH|s _ IH|s x s' r _ IH Hcall]; simpl.
    + by intros [? ?].
    + by intros [? ?].
    + intros [hv Hh]. destruct (h s); [|done].
      destruct IH as [cv ->]; simpl; eauto.
    + intros [hv Hh]. destruct (h s); [|done].
      destruct IH as [cv ->]; simpl; eauto.
    + destruct r as [e|out].
      * apply call_raises in Hcall
          as [[_ ->]|[(g & rest & _ & _ & ->)|(g & r & cn & hn & _ & _ & _ & ->)]];
          simpl; eauto.
      * intros _. by apply (call_returns_Set _ _ _ _ Hcall).
Qed.

(** ** Determinism *)

(** The link after a sequence of calls, whatever each did. *)
Fixpoint after (s : LSTM elem) (xs : list (variable elem)) : LSTM elem :=
  match xs with
  | [] => s
  | x :: xs' => after (__call__ x s).1 xs'
  end.

Lemma call_keeps_config (s s' : LSTM elem) (x : variable elem) r :
  __call__ x s = (s', r) → state_size s' = state_size s ∧ xp s' = xp s.
Proof.
  destruct r as [e|out].
  - by intros [[_ ->]|[(g & rest & _ & _ & ->)|(g & r & cn & hn & _ & _ & _ & ->)]]%call_raises.
  - by intros (g & rest & cn & hn & _ & _ & _ & ->)%call_returns.
Qed.

Lemma after_keeps_config (xs : list (variable elem)) (s : LSTM elem) :
  state_size (after s xs) = state_size s ∧ xp (after s xs) = xp s.
Proof.
  revert s. induction xs as [|x xs IH]; intros s; simpl; [done|].
  destruct (__call__ x s) as [s' r] eqn:Hc. simpl.
  destruct (call_keeps_config _ _ _ _ Hc) as [<- <-]. apply IH.
Qed.

Lemma reset_state_config (s1 s2 : LSTM elem) :
  state_size s1 = state_size s2 → xp s1 = xp s2 →
  reset_state s1 = reset_state s2.
Proof. unfold reset_state. by intros -> ->. Qed.

(** C7. With the collaborators fixed, two links of the same [state_size]
    on the same device, once reset, answer the same sequence of inputs
    with the same outputs, call by call: what each call returns or raises
    depends on the inputs since the reset and on nothing the links held
    before.  So a link that is run on a sequence, reset and run on it
    again gives the same outputs twice. *)
Theorem reset_runs_agree (s1 s2 : LSTM elem) (xs : list (variable elem)) :
  state_size s1 = state_size s2 → xp s1 = xp s2 →
  outputs (reset_state s1) xs = outputs (reset_state s2) xs ∧
  outputs (reset_state (after (reset_state s1) xs)) xs =
    outputs (reset_state s1) xs.
Proof.
  intros Hn Hm. split.
  - f_equal. by apply reset_state_config.
  - f_equal. apply reset_state_config.
    + by destruct (after_keeps_config xs (reset_state s1)) as [-> _].
    + by destruct (after_keeps_config xs (reset_state s1)) as [_ ->].
Qed.

(** In particular the calls made before the reset do not matter. *)
Lemma reset_forgets_past (s : LSTM elem) (past1 past2 xs : list (variable elem)) :
  outputs (reset_state (after s past1)) xs =
  outputs (reset_state (after s past2)) xs.
Proof.
  f_equal. apply reset_state_config.
  - destruct (after_keeps_config past1 s) as [-> _].
    by destruct (after_keeps_config past2 s) as [-> _].
  - destruct (after_keeps_config past1 s) as [_ ->].
    by destruct (after_keeps_config past2 s) as [_ ->].
Qed.

End States.

(** ** Shrinking batches *)

Section Shrink.
Context {elem : Type} `{Collaborators elem}.

(** After the call, [c] has the rows of the input and [h] the rows it had
    before. *)
Definition cell_shrinks (s : LSTM elem) (x : variable elem) : Prop :=
  ∀ hv s' out,
    h s = Some hv → len x < len hv → __call__ x s = (s', inr out) →
    ∃ cv' hv', c s' = Some cv' ∧ h s' = Some hv' ∧
      len cv' = len x ∧ len hv' = len hv.

(** C8, as the code has it.  After a call whose input has fewer rows than
    [h] had, [h] has as many rows as before.  [c] is the new cell state
    that the gate primitive returned for all of the previous [c] and a
    pre-activation of as many rows as the input: the call itself neither
    cuts [c] nor puts rows back into it, so [c] has the rows of the input
    only when the primitive returns as many as the pre-activation has. *)
Theorem shrinking_batch_state (s s' : LSTM elem) (x hv cv out : variable elem) :
  h s = Some hv → c s = Some cv → len x < len hv →
  __call__ x s = (s', inr out) →
  h s' = Some out ∧ len out = len hv ∧
  ∃ g h_rest cn hn,
    gate_input s x = inr (g, Some h_rest) ∧ len g = len x ∧
    lstm cv g = inr (cn, hn) ∧
    c s' = Some cn ∧
    (len cn = len x ↔ len cn = len g).
Proof.
  intros Hh Hc Hlt Hcall.
  apply (split_branch_returns _ _ _ _ _ _ Hh Hc Hlt) in Hcall
    as (u & hd & tl & l & g & cn & hn & Hu & Hs & Hla & Ha & Hl & Hr & ->).
  assert (gate_input s x = inr (g, Some tl)) as Hgi.
  { rewrite (gate_input_split _ _ _ Hh Hlt), Hu, Hs, Hla, Ha. done. }
  pose proof (gate_input_len _ _ _ _ Hgi) as Hgl.
  pose proof (lstm_out_len _ _ _ _ Hl) as Hhn.
  destruct (split_axis_rows _ _ _ _ Hs) as [_ Htl].
  split_and!; [done| |].
  - unfold len in *.
    rewrite (concat_rows _ _ _ Hr), Htl, length_app, length_drop. lia.
  - exists g, tl, cn, hn. split_and!; try done. by rewrite Hgl.
Qed.

(** What one call does to the rows of [h]: the new output of the gate
    primitive, as many rows as the input has, then the rows [h] had
    beyond. *)
Lemma call_h_rows (s s' : LSTM elem) (x out : variable elem) :
  __call__ x s = (s', inr out) →
  ∃ hn, new_output s x = inr hn ∧ len hn = len x ∧
    h_rows s' = rows (data hn) ++ drop (len x) (h_rows s).
Proof.
  intros (g & rest & cn & hn & Hg & Hl & Hr & ->)%call_returns.
  exists hn. unfold new_output, rbind. rewrite Hg, Hl.
  pose proof (gate_input_len _ _ _ _ Hg) as Hgl.
  pose proof (lstm_out_len _ _ _ _ Hl) as Hhn.
  split_and!; [done|congruence|].
  unfold h_rows at 1; simpl. unfold h_rows.
  destruct (h s) as [hv|] eqn:Hh.
  - destruct (decide (len x < len hv)) as [Hlt|Hge].
    + rewrite (gate_input_split _ _ _ Hh Hlt) in Hg.
      repeat case_match; simplify_eq.
      match goal with E : split_axis _ _ = inr _ |- _ =>
        destruct (split_axis_rows _ _ _ _ E) as [_ Htl] end.
      rewrite (concat_rows _ _ _ Hr), Htl. done.
    + rewrite (gate_input_whole _ _ _ Hh) in Hg by lia.
      repeat case_match; simplify_eq.
      rewrite drop_ge by (unfold len in *; lia). by rewrite app_nil_r.
  - rewrite (gate_input_None _ _ Hh) in Hg.
    repeat case_match; simplify_eq. by rewrite drop_nil, app_nil_r.
Qed.

(** Calls with inputs of at most [j] rows leave row [j] of [h] alone. *)
Lemma steps_keep_row (xs : list (variable elem)) (s s' : LSTM elem) (j : nat) :
  Forall (λ y, len y ≤ j) xs → steps s xs = Some s' →
  h_rows s' !! j = h_rows s !! j.
Proof.
  revert s. induction xs as [|x xs IH]; intros s Hall Hsteps; simpl in *.
  - by simplify_eq.
  - apply Forall_cons_1 in Hall as [Hx Hall].
    destruct (__call__ x s) as [s1 [e|out]] eqn:Hcall; [done|].
    rewrite (IH _ Hall Hsteps).
    destruct (call_h_rows _ _ _ _ Hcall) as (hn & _ & Hlen & ->).
    unfold len in *.
    rewrite lookup_app_r by lia. rewrite lookup_drop. f_equal. lia.
Qed.

(** C9. Along calls whose batches never grow, row [j] of [h] after a call
    with more than [j] rows of input is row [j] of the new output of that
    call, and stays what it is through all the calls that follow with at
    most [j] rows, however many they are. *)
Theorem finished_rows_frozen
    (s0 s_pre s_i s_k : LSTM elem) (pre rest : list (variable elem))
    (x_i out : variable elem) (j : nat) :
  StronglySorted ge (len <$> (pre ++ x_i :: rest)) →
  steps s0 pre = Some s_pre →
  __call__ x_i s_pre = (s_i, inr out) →
  steps s_i rest = Some s_k →
  j < len x_i →
  (∀ y, head rest = Some y → len y ≤ j) →
  ∃ hn, new_output s_pre x_i = inr hn ∧
    h_rows s_i !! j = rows (data hn) !! j ∧
    h_rows s_k !! j = h_rows s_i !! j.
Proof.
  intros Hsorted _ Hcall Hrest Hj Hnext.
  destruct (call_h_rows _ _ _ _ Hcall) as (hn & Hnew & Hlen & Hrows).
  exists hn. split_and!; [done| |].
  - rewrite Hrows. apply lookup_app_l. unfold len in *. lia.
  - apply (steps_keep_row rest); [|done].
    rewrite fmap_app, fmap_cons in Hsorted.
    apply StronglySorted_app_1_r in Hsorted.
    destruct rest as [|y rest']; [done|].
    specialize (Hnext y eq_refl).
    rewrite fmap_cons in Hsorted.
    apply StronglySorted_inv in Hsorted as [Hs _].
    apply StronglySorted_inv in Hs as [_ Hall].
    apply Forall_cons. split; [done|].
    rewrite Forall_fmap in Hall. eapply Forall_impl; [exact Hall|].
    simpl. intros z Hz. unfold ge in Hz. lia.
Qed.

End Shrink.

(** ** The link at work

    A link of two input and one output features, called with four
    sequences, then with the three that go on, then with the one that
    still does. *)
Module Example.

#[export] Instance co : Collaborators Z := Toy.collaborators 2 1.

Definition x1 := Toy.var numpy float32 [[1; 0]; [0; 1]; [1; 1]; [2; 0]]%Z.
Definition x2 := Toy.var numpy float32 [[1; 0]; [0; 1]; [0; 0]]%Z.
Definition x3 := Toy.var numpy float32 [[1; 1]]%Z.

Definition s0 : LSTM Z := __init__ 2 1.

Definition c1 := Toy.var numpy float32 [[1]; [1]; [4]; [4]]%Z.
Definition h1 := Toy.var numpy float32 [[1]; [1]; [8]; [8]]%Z.
Definition s1 : LSTM Z :=
  {| state_size := 1; xp := numpy; c := Some c1; h := Some h1 |}.

Definition c2 := Toy.var numpy float32 [[12]; [12]; [320]; [4]]%Z.
Definition h2 := Toy.var numpy float32 [[36]; [36]; [5120]; [8]]%Z.
Definition s2 : LSTM Z :=
  {| state_size := 1; xp := numpy; c := Some c2; h := Some h2 |}.

Definition c3 := Toy.var numpy float32 [[6364]; [12]; [320]; [4]]%Z.
Definition h3 := Toy.var numpy float32 [[470936]; [36]; [5120]; [8]]%Z.
Definition s3 : LSTM Z :=
  {| state_size := 1; xp := numpy; c := Some c3; h := Some h3 |}.

(** The link of [s1] called once more with the four sequences. *)
Definition c1' := Toy.var numpy float32 [[12]; [12]; [396]; [396]]%Z.
Definition h1' := Toy.var numpy float32 [[36]; [36]; [7128]; [7128]]%Z.
Definition s1' : LSTM Z :=
  {| state_size := 1; xp := numpy; c := Some c1'; h := Some h1' |}.

(** The link after one call with a single sequence. *)
Definition c_one := Toy.var numpy float32 [[4]]%Z.
Definition h_one := Toy.var numpy float32 [[8]]%Z.
Definition s_one : LSTM Z :=
  {| state_size := 1; xp := numpy; c := Some c_one; h := Some h_one |}.

(** An input of the wrong element type, and one on the other device. *)
Definition x_f64 := Toy.var numpy float64 [[1; 0]]%Z.
Definition x_gpu := Toy.var cupy float32 [[1; 0]]%Z.

Example call_x1 : __call__ x1 s0 = (s1, inr h1).
Proof. reflexivity. Qed.

Example call_x2 : __call__ x2 s1 = (s2, inr h2).
Proof. reflexivity. Qed.

Example call_x3 : __call__ x3 s2 = (s3, inr h3).
Proof. reflexivity. Qed.

Example call_x3_first : __call__ x3 s0 = (s_one, inr h_one).
Proof. reflexivity. Qed.

Example call_x1_growing : __call__ x1 s_one = (s_one, inl InvalidType).
Proof. reflexivity. Qed.

Example call_x_f64 : __call__ x_f64 s0 = (s0, inl InvalidType).
Proof. reflexivity. Qed.

Example call_x_gpu : __call__ x_gpu s0 = (s0, inl InvalidType).
Proof. reflexivity. Qed.

Example call_x1_again : __call__ x1 s1 = (s1', inr h1').
Proof. reflexivity. Qed.

End Example.

Import Example.

(** *** The theorems at work on the example *)

Lemma shrinking_batch_output_witness :
  h s1 = Some h1 ∧ c s1 = Some c1 ∧ len x2 < len h1 ∧
  __call__ x2 s1 = (s2, inr h2) ∧
  drop (len x2) (rows (data h2)) = drop (len x2) (rows (data h1)) ∧
  len h2 = len h1 ∧ h s2 = Some h2.
Proof.
  assert (len x2 < len h1) as Hlt by (vm_compute; lia).
  assert (__call__ x2 s1 = (s2, inr h2)) as Hcall by reflexivity.
  destruct (shrinking_batch_output s1 s2 x2 h1 c1 h2 eq_refl eq_refl Hlt Hcall)
    as (u & hd & tl & l & g & cn & hn & _ & _ & _ & _ & _ & _ & _ & _ & _ & _
        & Hdrop & Hlen & Hh).
  split_and!; done.
Defined.

Lemma equal_batch_step_witness :
  ∃ u l g cn,
    upward (xp s1) x1 = inr u ∧ lateral (xp s1) h1 = inr l ∧
    add u l = inr g ∧ lstm c1 g = inr (cn, h1') ∧
    s1' = commit s1 cn h1' ∧ c s1' = Some cn ∧ h s1' = Some h1'.
Proof.
  apply (equal_batch_step s1 s1' x1 h1 c1 h1' eq_refl eq_refl eq_refl).
  reflexivity.
Defined.

Lemma first_step_no_lateral_witness :
  Unset s0 ∧
  ∃ u cn,
    upward (xp s0) x1 = inr u ∧
    lstm (zero_cell s0 x1) u = inr (cn, h1) ∧
    s1 = commit s0 cn h1.
Proof.
  assert (Unset s0) as Hu by (split; reflexivity).
  split; [exact Hu|].
  apply (proj1 (first_step_no_lateral s0 s1 x1 h1 Hu)). reflexivity.
Defined.

Lemma reset_runs_agree_witness :
  state_size s2 = state_size s0 ∧ xp s2 = xp s0 ∧
  outputs (reset_state s2) [x1; x2] = outputs (reset_state s0) [x1; x2] ∧
  outputs (reset_state s2) [x1; x2] = [inr h1; inr h2].
Proof.
  split_and!; [reflexivity|reflexivity| |reflexivity].
  apply (reset_runs_agree s2 s0 [x1; x2]); reflexivity.
Defined.

Lemma shrinking_batch_state_witness :
  __call__ x2 s1 = (s2, inr h2) ∧ h s2 = Some h2 ∧ len h2 = len h1.
Proof.
  assert (len x2 < len h1) as Hlt by (vm_compute; lia).
  assert (__call__ x2 s1 = (s2, inr h2)) as Hcall by reflexivity.
  destruct (shrinking_batch_state s1 s2 x2 h1 c1 h2 eq_refl eq_refl Hlt Hcall)
    as (Hh & Hlen & _).
  split_and!; done.
Defined.

Lemma finished_rows_frozen_witness :
  steps s0 [x1] = Some s1 ∧ __call__ x2 s1 = (s2, inr h2) ∧ steps s2 [x3] = Some s3 ∧
  h_rows s3 !! 2 = h_rows s2 !! 2.
Proof.
  assert (StronglySorted ge (len <$> ([x1] ++ x2 :: [x3]))) as Hsorted.
  { vm_compute. repeat (constructor; [|repeat constructor; lia]). constructor. }
  assert (2 < len x2) as Hj by (vm_compute; lia).
  assert (∀ y, head [x3] = Some y → len y ≤ 2) as Hnext.
  { intros y [= <-]. vm_compute. lia. }
  assert (steps s0 [x1] = Some s1) as Hpre by reflexivity.
  assert (__call__ x2 s1 = (s2, inr h2)) as Hcall by reflexivity.
  assert (steps s2 [x3] = Some s3) as Hrest by reflexivity.
  destruct (finished_rows_frozen s0 s1 s2 s3 [x1] [x3] x2 h2 2
              Hsorted Hpre Hcall Hrest Hj Hnext) as (hn & _ & _ & Hrow).
  split_and!; done.
Defined.

Lemma growing_batch_unchecked_witness :
  h s_one = Some h_one ∧ c s_one = Some c_one ∧ len h_one < len x1 ∧
  __call__ x1 s_one = (s_one, inl InvalidType) ∧
  (∀ s' e, __call__ x1 s_one = (s', inl e) → s' = s_one).
Proof.
  assert (len h_one < len x1) as Hlt by (vm_compute; lia).
  destruct (growing_batch_unchecked s_one x1 h_one c_one eq_refl eq_refl Hlt)
    as (_ & _ & Hraise).
  split_and!; try done.
  intros s' e Hcall. by destruct (Hraise s' e Hcall).
Defined.

(** *** Where the code does otherwise *)

(** C8: the gate primitive hands the rows of the cell state it did not
    update back with the others, and [c] has four rows after the call
    with three. *)
Lemma cell_keeps_rows : steps s0 [x1] = Some s1 ∧ ¬ cell_shrinks s1 x2.
Proof.
  split; [reflexivity|].
  intros Hsh.
  assert (len x2 < len h1) as Hlt by (vm_compute; lia).
  assert (__call__ x2 s1 = (s2, inr h2)) as Hcall by reflexivity.
  destruct (Hsh h1 s2 h2 eq_refl Hlt Hcall) as (cv' & hv' & Hc & _ & Hlen & _).
  injection Hc as <-. vm_compute in Hlen. discriminate.
Qed.

(** ** Moving the link between devices *)

Section Transfer.
Context {elem : Type}.

(** A state that, when set, is backed by module [m]. *)
Definition on_module (m : ArrayModule) (o : option (variable elem)) : Prop :=
  ∀ v, o = Some v → module (data v) = m.

(** Both states are where the link is. *)
Definition states_on (s : LSTM elem) : Prop :=
  on_module (xp s) (c s) ∧ on_module (xp s) (h s).

(** What a move must not touch in a variable. *)
Definition content (v : variable elem) : list (list elem) * DType * Flag :=
  (rows (data v), dtype (data v), volatile v).

(** X1. Moving twice to the same device is moving once, and of two moves in a
    row the second decides: the states keep no trace of the device they
    came from. *)
Theorem transfer_last_wins (s : LSTM elem) :
  to_cpu (to_cpu s) = to_cpu s ∧ to_gpu (to_gpu s) = to_gpu s ∧
  to_cpu (to_gpu s) = to_cpu s ∧ to_gpu (to_cpu s) = to_gpu s.
Proof. destruct s as [n m [cv|] [hv|]]; done. Qed.

(** X2. A link whose states are where it is comes back unchanged from a move
    to the other device and back. *)
Theorem transfer_round_trip (s : LSTM elem) :
  states_on s →
  (xp s = numpy → to_cpu (to_gpu s) = s) ∧
  (xp s = cupy → to_gpu (to_cpu s) = s).
Proof.
  destruct s as [n m oc oh]. intros [Hc Hh]. simpl in *.
  assert (∀ o : option (variable elem), on_module numpy o →
            var_to_cpu <$> (var_to_gpu <$> o) = o) as Hcpu.
  { intros [[[r d m'] f]|] Ho; [|done].
    specialize (Ho _ eq_refl). simpl in Ho. by subst. }
  assert (∀ o : option (variable elem), on_module cupy o →
            var_to_gpu <$> (var_to_cpu <$> o) = o) as Hgpu.
  { intros [[[r d m'] f]|] Ho; [|done].
    specialize (Ho _ eq_refl). simpl in Ho. by subst. }
  split; intros ->; unfold to_cpu, to_gpu; simpl.
  - by rewrite (Hcpu _ Hc), (Hcpu _ Hh).
  - by rewrite (Hgpu _ Hc), (Hgpu _ Hh).
Qed.

(** X3. After [to_cpu] the link is on [numpy] and so is every state that is
    set, wherever it was; after [to_gpu] the same with [cupy].  A state
    that is [None] stays [None] and one that is set stays set, with its
    rows, its element type and its flag; [state_size] is not touched. *)
Theorem transfer_moves_states (s : LSTM elem) :
  (xp (to_cpu s) = numpy ∧ states_on (to_cpu s) ∧
   content <$> c (to_cpu s) = content <$> c s ∧
   content <$> h (to_cpu s) = content <$> h s ∧
   state_size (to_cpu s) = state_size s) ∧
  (xp (to_gpu s) = cupy ∧ states_on (to_gpu s) ∧
   content <$> c (to_gpu s) = content <$> c s ∧
   content <$> h (to_gpu s) = content <$> h s ∧
   state_size (to_gpu s) = state_size s).
Proof.
  destruct s as [n m oc oh].
  split; (split_and!; [done| |by destruct oc|by destruct oh|done]);
    (split; simpl; intros v Hv;
     [destruct oc|destruct oh]; simplify_eq/=; done).
Qed.

End Transfer.

(** ** The link over a whole program *)

Section Program.
Context {elem : Type} `{Collaborators elem}.

(** What a program does to a link: the four methods that touch it. *)
Inductive op : Type :=
  | Reset
  | ToCpu
  | ToGpu
  | Call (x : variable elem).

(** The link after one method, whether a call returned or raised. *)
Definition run_op (s : LSTM elem) (o : op) : LSTM elem :=
  match o with
  | Reset => reset_state s
  | ToCpu => to_cpu s
  | ToGpu => to_gpu s
  | Call x => (__call__ x s).1
  end.

Definition run_ops (s : LSTM elem) (ops : list op) : LSTM elem :=
  foldl run_op s ops.

(** The module the last move of a program leaves the link on, [m] when
    the program has none. *)
Definition last_module (m : ArrayModule) (ops : list op) : ArrayModule :=
  foldl (λ m o, match o with
                | ToCpu => numpy
                | ToGpu => cupy
                | Reset | Call _ => m
                end) m ops.

Lemma run_op_config (s : LSTM elem) (o : op) :
  state_size (run_op s o) = state_size s ∧
  xp (run_op s o) = last_module (xp s) [o].
Proof.
  destruct o as [| | |x]; simpl; try done.
  destruct (__call__ x s) as [s' r] eqn:Hcall.
  apply (call_keeps_config _ _ _ _ Hcall).
Qed.

Lemma run_ops_config (ops : list op) (s : LSTM elem) :
  reachable s →
  reachable (run_ops s ops) ∧
  state_size (run_ops s ops) = state_size s ∧
  xp (run_ops s ops) = last_module (xp s) ops.
Proof.
  unfold run_ops, last_module.
  revert s. induction ops as [|o ops IH]; intros s Hs; simpl; [done|].
  destruct (run_op_config s o) as [Hn Hm]. simpl in Hm.
  assert (reachable (run_op s o)) as Hs'.
  { destruct o as [| | |x]; simpl.
    - by apply reach_reset.
    - by apply reach_to_cpu.
    - by apply reach_to_gpu.
    - destruct (__call__ x s) as [s' r] eqn:Hcall. by eapply reach_call. }
  destruct (IH _ Hs') as (Hr & Hsz & Hxp).
  split_and!; [done|congruence|].
  rewrite Hxp, Hm. done.
Qed.

(** X4. Whatever a program does with a link built by [__init__] with
    [out_size], the link it holds is one of the reachable ones, its
    [state_size] is still [out_size], and it is on the device of the last
    move, on the CPU if there was none: calls and resets move nothing,
    not even calls that raise. *)
Theorem program_keeps_config (in_size out_size : nat) (ops : list op) :
  reachable (run_ops (__init__ in_size out_size) ops) ∧
  state_size (run_ops (__init__ in_size out_size) ops) = out_size ∧
  xp (run_ops (__init__ in_size out_size) ops) = last_module numpy ops.
Proof. apply (run_ops_config ops (__init__ in_size out_size)), reach_init. Qed.

(** X5. [reset_state] after a call gives the link that [reset_state] before
    the call would have given: whatever the call assigned before it
    raised, a reset clears it. *)
Theorem reset_after_call (s s' : LSTM elem) (x : variable elem)
    (r : result (variable elem)) :
  __call__ x s = (s', r) → reset_state s' = reset_state s.
Proof.
  intros [Hn Hm]%call_keeps_config. by apply reset_state_config.
Qed.

(** X6. A call that returns hands back the very variable it has stored in
    [h], and that variable has the rows of the input or those [h] had
    before, whichever are more: [h] grows to the largest batch and never
    gets shorter. *)
Theorem call_output_rows (s s' : LSTM elem) (x out : variable elem) :
  __call__ x s = (s', inr out) →
  h s' = Some out ∧
  len out = max (len x) (length (h_rows s)).
Proof.
  intros Hcall.
  destruct (call_h_rows _ _ _ _ Hcall) as (hn & _ & Hlen & Hrows).
  apply call_returns in Hcall as (g & rest & cn & hn' & _ & _ & _ & ->).
  split; [done|].
  unfold h_rows at 1 in Hrows; simpl in Hrows.
  unfold len in *. rewrite Hrows, length_app, length_drop. lia.
Qed.

Lemma call_h_length (s s' : LSTM elem) (x out : variable elem) :
  __call__ x s = (s', inr out) →
  length (h_rows s') = max (len x) (length (h_rows s)).
Proof.
  intros Hcall.
  destruct (call_h_rows _ _ _ _ Hcall) as (hn & _ & Hlen & ->).
  unfold len in *. rewrite length_app, length_drop. lia.
Qed.

Lemma steps_h_length (xs : list (variable elem)) (s s' : LSTM elem) :
  steps s xs = Some s' →
  length (h_rows s') = max (length (h_rows s)) (max_list (len <$> xs)).
Proof.
  revert s. induction xs as [|x xs IH]; intros s Hsteps; simpl in Hsteps.
  - simplify_eq. simpl. lia.
  - destruct (__call__ x s) as [s1 [e|out]] eqn:Hcall; [done|].
    rewrite (IH _ Hsteps), (call_h_length _ _ _ _ Hcall).
    rewrite fmap_cons.
    change (max_list (len x :: (len <$> xs)))
      with (max (len x) (max_list (len <$> xs))).
    lia.
Qed.

(** X7. After calls that all return, [h] has as many rows as the largest
    batch it was called with, or as it had before them if that is
    more. *)
Theorem steps_h_rows (xs : list (variable elem)) (s s' : LSTM elem) :
  steps s xs = Some s' →
  length (h_rows s') = max (length (h_rows s)) (max_list (len <$> xs)).
Proof. apply steps_h_length. Qed.

(** X8. On a link that was just built or reset, calls whose batches never
    grow and that all return leave [h] with the rows of the first input,
    however short the later inputs are. *)
Theorem sorted_steps_first_batch
    (s s' : LSTM elem) (x : variable elem) (xs : list (variable elem)) :
  Unset s →
  StronglySorted ge (len <$> (x :: xs)) →
  steps s (x :: xs) = Some s' →
  length (h_rows s') = len x.
Proof.
  intros [_ Hh] Hsorted Hsteps.
  rewrite (steps_h_length _ _ _ Hsteps). unfold h_rows. rewrite Hh.
  cbn [length]. rewrite fmap_cons.
  rewrite fmap_cons in Hsorted.
  apply StronglySorted_inv in Hsorted as [_ Hall].
  assert (max_list (len <$> xs) ≤ len x) as Hle.
  { induction Hall as [|b l Hb _ IH]; simpl; [lia|]. unfold ge in Hb. lia. }
  change (max_list (len x :: (len <$> xs)))
    with (max (len x) (max_list (len <$> xs))).
  lia.
Qed.

(** The link with another [state_size]. *)
Definition with_state_size (n : nat) (s : LSTM elem) : LSTM elem :=
  {| state_size := n; xp := xp s; c := c s; h := h s |}.

(** X10. Once [c] is set a call does not read [state_size]: with any other
    value in it the call returns or raises the same, and leaves the same
    states.  The width of the stored states is never compared with
    it. *)
Theorem set_cell_ignores_state_size (s : LSTM elem) (x cv : variable elem) (n : nat) :
  c s = Some cv →
  __call__ x (with_state_size n s) =
  (with_state_size n (__call__ x s).1, (__call__ x s).2).
Proof.
  destruct s as [n0 m oc oh]. simpl. intros ->. rewrite !call_unfold.
  unfold gate_input, gate_cell, with_cell, gate_cell, commit, with_state_size.
  simpl.
  repeat (case_match; simplify_eq/=; try done).
Qed.

End Program.

(** *** More of the example *)

Lemma transfer_round_trip_witness :
  states_on s1 ∧ xp s1 = numpy ∧ to_cpu (to_gpu s1) = s1.
Proof.
  assert (states_on s1) as Hon.
  { split; intros v [= <-]; reflexivity. }
  split_and!; [exact Hon|reflexivity|].
  apply (proj1 (transfer_round_trip s1 Hon)). reflexivity.
Defined.

Lemma reset_after_call_witness :
  __call__ x1 s0 = (s1, inr h1) ∧ reset_state s1 = reset_state s0.
Proof.
  assert (__call__ x1 s0 = (s1, inr h1)) as Hcall by reflexivity.
  split; [exact Hcall|].
  apply (reset_after_call s0 s1 x1 (inr h1) Hcall).
Defined.

Lemma call_output_rows_witness :
  __call__ x2 s1 = (s2, inr h2) ∧
  h s2 = Some h2 ∧ len h2 = max (len x2) (length (h_rows s1)).
Proof.
  assert (__call__ x2 s1 = (s2, inr h2)) as Hcall by reflexivity.
  split; [exact Hcall|].
  apply (call_output_rows s1 s2 x2 h2 Hcall).
Defined.

Lemma steps_h_rows_witness :
  steps s0 [x1; x2; x3] = Some s3 ∧
  length (h_rows s3) = max (length (h_rows s0)) (max_list (len <$> [x1; x2; x3])).
Proof.
  assert (steps s0 [x1; x2; x3] = Some s3) as Hsteps by reflexivity.
  split; [exact Hsteps|].
  apply (steps_h_rows [x1; x2; x3] s0 s3 Hsteps).
Defined.

Lemma sorted_steps_first_batch_witness :
  Unset s0 ∧ steps s0 [x1; x2; x3] = Some s3 ∧ length (h_rows s3) = len x1.
Proof.
  assert (Unset s0) as Hu by (split; reflexivity).
  assert (StronglySorted ge (len <$> (x1 :: [x2; x3]))) as Hsorted.
  { vm_compute. repeat (constructor; [|repeat constructor; lia]). constructor. }
  assert (steps s0 (x1 :: [x2; x3]) = Some s3) as Hsteps by reflexivity.
  split_and!; [exact Hu|exact Hsteps|].
  apply (sorted_steps_first_batch s0 s3 x1 [x2; x3] Hu Hsorted Hsteps).
Defined.

Lemma set_cell_ignores_state_size_witness :
  c s1 = Some c1 ∧
  __call__ x2 (with_state_size 7 s1) = (with_state_size 7 s2, inr h2).
Proof.
  assert (c s1 = Some c1) as Hc by reflexivity.
  split; [exact Hc|].
  rewrite (set_cell_ignores_state_size s1 x2 c1 7 Hc). reflexivity.
Defined.

(** ** Collaborators that refuse before the link assigns

    The theorems above hold of any collaborators.  The library's own find
    what is wrong with an input in the projection, before [__call__] has
    assigned anything; what the link has the others do afterwards is
    then in order. *)

Class Checked (elem : Type) `{Collaborators elem} := {
  (** the output features the two projections were built for, which
      [__init__] also puts in [state_size] *)
  out_size : nat;
  (** Modelled from the spec: the affine projection, absent from this
      file.  The spec has the cell state allocated on the device of the
      input (4.1, step 4) and the states on the device of the link (3):
      the input of a step is where the link is, and a projection whose
      weights are on one device takes no input from another. *)
  upward_on_module : ∀ m x u, upward m x = inr u → module (data x) = m;
  (** Modelled from the spec: the gate primitive, absent from this file.
      Errors are limited to dimension mismatches between the input and
      [in_size], which the projection finds, or between a stored state
      and [out_size] (4.1, 7): given the zero cell state of [out_size]
      features and the projection of an input it has accepted, the
      primitive does not raise. *)
  lstm_takes_zero_cell : ∀ m x u, upward m x = inr u →
    ∃ cn hn,
      lstm {| data := zeros zero m (len x) out_size (dtype (data x));
              volatile := AUTO |} u = inr (cn, hn);
  (** Modelled from the spec: the concatenation, absent from this file.
      A step fails before it mutates state (7): once [lateral] has
      accepted the rows that were split off [h] and the gate primitive
      has returned, putting the other rows of [h] behind the new output
      does not raise. *)
  concat_takes_new_output : ∀ m u hv i h_update h_rest l g cv cn hn,
    split_axis hv i = inr (h_update, h_rest) →
    lateral m h_update = inr l →
    add u l = inr g →
    lstm cv g = inr (cn, hn) →
    ∃ out, concat hn h_rest = inr out
}.

Section CheckedLink.
Context {elem : Type} `{Checked elem}.







End CheckedLink.

(** The collaborators of the example check. *)
Lemma toy_upward_on_module (n_in n_out : nat) m x u :
  Toy.linear 1 n_in (4 * n_out) m x = inr u → module (data x) = m.
Proof. unfold Toy.linear. case_decide as Hok; [|done]. by destruct Hok as (_ & ? & _). Qed.

Lemma toy_lstm_takes_zero_cell (n_in n_out : nat) m x u :
  Toy.linear 1 n_in (4 * n_out) m x = inr u →
  ∃ cn hn,
    Toy.gate {| data := zeros 0%Z m (len x) n_out (dtype (data x));
                volatile := AUTO |} u = inr (cn, hn).
Proof.
  unfold Toy.linear. case_decide as Hok; [|done]. intros [= <-].
  destruct Hok as (Hd & Hm & _).
  unfold Toy.gate. simpl.
  destruct (volatile x); simpl;
    (rewrite decide_True; [eauto|]);
    (unfold Toy.gate_ok, len; simpl;
     rewrite length_fmap, length_replicate, take_replicate, Nat.min_id;
     split_and!; [done|done|done|lia|];
     apply Forall2_replicate_l; [by rewrite length_fmap|];
     apply Forall_fmap, Forall_true; intros r; simpl;
     rewrite !length_replicate; lia).
Qed.

Definition toy_checked (n_in n_out : nat)
  : Checked Z (H := Toy.collaborators n_in n_out).
Proof.
  refine {| out_size := n_out |}.
  - intros m x u Hu. by apply (toy_upward_on_module n_in n_out m x u).
  - intros m x u Hu. by apply (toy_lstm_takes_zero_cell n_in n_out m x u).
  - intros m u hv i h_update h_rest l g cv cn hn _ _ _ _.
    by exists (Toy.with_rows hn (rows (data hn) ++ rows (data h_rest))).
Defined.

#[local] Existing Instance co.
#[local] Instance co_checked : Checked Z := toy_checked 2 1.



